(** * lfi-bind, embed/stub/thread.c: the thread-handle shim

    A shallow embedding of [_lfi_thread_create] and [_lfi_thread_destroy]
    together with the part of libc and pthreads they are linked against.
    The two functions are straight-line C over five library calls, so the
    embedding is a small state/log/fault monad: the state is what the
    library calls act on (heap blocks, initialised attribute objects,
    started threads), the log is the sequence of library calls made, and a
    fault is undefined behaviour (a free of a pointer that is not a live
    block, a [pthread_create] handed an identifier pointer that is not one).
    What the platform answers to each call is not decided by the program;
    it is an input of the model. *)

From stdpp Require Import base gmap list.
From Stdlib Require Import ZArith Lia.

Local Open Scope Z_scope.

(** ** Data *)

(** Pointers are addresses; [NULL] is address zero.  Function pointers and
    the opaque [void*] handle are pointers too. *)
Definition ptr : Type := Z.
Definition NULL : ptr := 0.

(** [pthread_attr_t]: only the stack size is ever configured here.  A
    declared but not yet initialised object (the local [attrs] right after
    its declaration) has [attr_initialized = false]. *)
Record pthread_attr_t : Type := {
  attr_initialized : bool;
  attr_stacksize : Z
}.

Definition attr_uninit : pthread_attr_t :=
  {| attr_initialized := false; attr_stacksize := 0 |}.

(** A heap block: its size in bytes and, when it stores a [pthread_t], the
    thread identifier written into it. *)
Record block : Type := {
  blk_size : Z;
  blk_tid : option Z
}.

(** A started native thread. *)
Record thread : Type := {
  th_id : Z;
  th_entry : ptr;
  th_arg : ptr;
  th_stacksize : Z
}.

(** The state the library calls act on. *)
Record world : Type := {
  heap : gmap Z block;      (* live malloc blocks, by base address *)
  live_attrs : nat;         (* attribute objects initialised and not destroyed *)
  threads : list thread     (* native threads started so far, oldest first *)
}.

Definition set_heap (h : gmap Z block) (w : world) : world :=
  {| heap := h; live_attrs := live_attrs w; threads := threads w |}.
Definition set_live_attrs (n : nat) (w : world) : world :=
  {| heap := heap w; live_attrs := n; threads := threads w |}.
Definition set_threads (l : list thread) (w : world) : world :=
  {| heap := heap w; live_attrs := live_attrs w; threads := l |}.

(** The library interface, as calls with their arguments and results.  The
    calls the shim never makes are listed as well, so that their absence
    from a log is a statement. *)
Inductive call : Type :=
  | Malloc (size : Z) (ret : ptr)
  | Free (p : ptr)
  | PthreadAttrInit (ret : Z)
  | PthreadAttrSetstacksize (size : Z) (ret : Z)
  | PthreadAttrDestroy
  | PthreadCreate (t : ptr) (a : pthread_attr_t) (fn arg : ptr) (ret : Z)
  | PthreadJoin (tid : Z)
  | PthreadDetach (tid : Z)
  | PthreadCancel (tid : Z)
  | PthreadKill (tid : Z) (sig : Z).

Definition is_pthread_create (c : call) : bool :=
  match c with PthreadCreate _ _ _ _ _ => true | _ => false end.
Definition is_free (c : call) : bool :=
  match c with Free _ => true | _ => false end.
Definition is_attr_destroy (c : call) : bool :=
  match c with PthreadAttrDestroy => true | _ => false end.
(** Calls that synchronise with, or act on, a running thread. *)
Definition is_thread_sync (c : call) : bool :=
  match c with
  | PthreadJoin _ | PthreadDetach _ | PthreadCancel _ | PthreadKill _ _ => true
  | _ => false
  end.

(** What the platform answers during one call of [_lfi_thread_create]:
    the constants of the ABI and the result of each library call. *)
Record platform : Type := {
  sizeof_pthread_t : Z;        (* sizeof(pthread_t) *)
  default_stacksize : Z;       (* stack size of a freshly initialised attribute object *)
  malloc_ret : ptr;            (* NULL, or the base address of the new block *)
  attr_init_ret : Z;           (* result of pthread_attr_init *)
  attr_setstacksize_ret : Z;   (* result of pthread_attr_setstacksize *)
  pthread_create_ret : Z;      (* result of pthread_create *)
  new_tid : Z;                 (* identifier given to the thread, if it starts *)
  refused_store : option Z     (* what a refused pthread_create leaves in *t *)
}.

(** ** The monad: state, call log, fault *)

Inductive outcome (A : Type) : Type :=
  | Val (a : A)
  | Fault.
Arguments Val {A} a.
Arguments Fault {A}.

Record res (A : Type) : Type := {
  out : outcome A;
  post : world;
  log : list call
}.
Arguments out {A} r.
Arguments post {A} r.
Arguments log {A} r.

Definition M (A : Type) : Type := world → res A.

#[export] Instance M_ret : MRet M := λ A (a : A) w,
  {| out := Val a; post := w; log := [] |}.

#[export] Instance M_bind : MBind M := λ A B (f : A → M B) (m : M A) w,
  let r := m w in
  match out r with
  | Val a =>
      let r' := f a (post r) in
      {| out := out r'; post := post r'; log := log r ++ log r' |}
  | Fault => {| out := Fault; post := post r; log := log r |}
  end.

(** One library call: its log entry, its result and its effect. *)
Definition did {A : Type} (c : call) (a : A) (w : world) : res A :=
  {| out := Val a; post := w; log := [c] |}.
Definition faulted {A : Type} (c : call) (w : world) : res A :=
  {| out := Fault; post := w; log := [c] |}.

(** ** The library calls *)

(** [malloc]: the platform either refuses (NULL) or hands out a block at
    the address it chose; the block's contents are indeterminate. *)
Definition malloc (answer : ptr) (size : Z) : M ptr := λ w,
  if decide (answer = NULL) then did (Malloc size NULL) NULL w
  else did (Malloc size answer) answer
           (set_heap (<[answer := {| blk_size := size; blk_tid := None |}]> (heap w)) w).

(** [free]: nothing for NULL, releases a live block, undefined otherwise. *)
Definition free (p : ptr) : M unit := λ w,
  if decide (p = NULL) then did (Free p) tt w
  else match heap w !! p with
       | Some _ => did (Free p) tt (set_heap (delete p (heap w)) w)
       | None => faulted (Free p) w
       end.

(** [pthread_attr_init(&a)]: on success the object is initialised with
    the platform's defaults; the updated object is returned next to the
    result code, as the C call updates it through the pointer. *)
Definition pthread_attr_init (answer dflt : Z) (a : pthread_attr_t)
  : M (Z * pthread_attr_t) := λ w,
  if decide (answer = 0)
  then did (PthreadAttrInit answer)
           (answer, {| attr_initialized := true; attr_stacksize := dflt |})
           (set_live_attrs (S (live_attrs w)) w)
  else did (PthreadAttrInit answer) (answer, a) w.

(** [pthread_attr_setstacksize(&a, size)]. *)
Definition pthread_attr_setstacksize (answer : Z) (a : pthread_attr_t) (size : Z)
  : M (Z * pthread_attr_t) := λ w,
  if attr_initialized a then
    if decide (answer = 0)
    then did (PthreadAttrSetstacksize size answer)
             (answer, {| attr_initialized := true; attr_stacksize := size |}) w
    else did (PthreadAttrSetstacksize size answer) (answer, a) w
  else faulted (PthreadAttrSetstacksize size answer) w.

(** [pthread_create(t, &a, fn, arg)]: [t] must point to storage for a
    [pthread_t]; handing it anything else is undefined, whatever the call
    would answer.  On success the new thread runs [fn(arg)] on a stack of
    the size recorded in [a] and its identifier is stored through [t].  On
    failure nothing is started, and the contents of [*t] are whatever the
    library left there ([stored]): nothing, or a descriptor written before
    the attempt. *)
Definition pthread_create (answer tid : Z) (stored : option Z) (t : ptr)
    (a : pthread_attr_t) (fn arg : ptr) : M Z := λ w,
  let c := PthreadCreate t a fn arg answer in
  if attr_initialized a then
    match heap w !! t with
    | Some b =>
        if decide (answer = 0) then
          did c answer
            (set_threads
               (threads w ++ [{| th_id := tid; th_entry := fn; th_arg := arg;
                                 th_stacksize := attr_stacksize a |}])
               (set_heap (<[t := {| blk_size := blk_size b; blk_tid := Some tid |}]> (heap w)) w))
        else
          did c answer
            (set_heap (<[t := {| blk_size := blk_size b; blk_tid := stored |}]> (heap w)) w)
    | None => faulted c w
    end
  else faulted c w.

(** ** The shim (embed/stub/thread.c) *)

Definition _lfi_thread_create (pf : platform) (fn : ptr) : M ptr :=
  t ← malloc (malloc_ret pf) (sizeof_pthread_t pf);
  let attrs := attr_uninit in
  '(r, attrs) ← pthread_attr_init (attr_init_ret pf) (default_stacksize pf) attrs;
  if decide (r ≠ 0) then mret NULL
  else
    '(r, attrs) ← pthread_attr_setstacksize (attr_setstacksize_ret pf) attrs (2 * 1024 * 1024);
    if decide (r ≠ 0) then mret NULL
    else
      _ ← pthread_create (pthread_create_ret pf) (new_tid pf) (refused_store pf)
            t attrs fn NULL;
      mret t.

Definition _lfi_thread_destroy (arg : ptr) : M unit :=
  free arg.

(** ** A host using the shim

    Any host is, as far as the shim is concerned, a sequence of calls of
    the two functions.  The host may pass [_lfi_thread_destroy] any
    pointer; the platform answers each [_lfi_thread_create] afresh.  A
    fault ends the run. *)
Inductive op : Type :=
  | Create (pf : platform) (fn : ptr)
  | Destroy (h : ptr).

Definition exec (o : op) : M unit :=
  match o with
  | Create pf fn => _ ← _lfi_thread_create pf fn; mret tt
  | Destroy h => _lfi_thread_destroy h
  end.

Fixpoint run (os : list op) : M unit :=
  match os with
  | [] => mret tt
  | o :: os' => _ ← exec o; run os'
  end.

(** ** Paths, invariants and handles: the vocabulary of the statements *)

(** The state right after the allocation at entry. *)
Definition after_malloc (pf : platform) (w : world) : world :=
  post (malloc (malloc_ret pf) (sizeof_pthread_t pf) w).

(** The attribute object handed to [pthread_create]. *)
Definition attrs_2MiB : pthread_attr_t :=
  {| attr_initialized := true; attr_stacksize := 2 * 1024 * 1024 |}.

(** Attribute setup succeeded: both configuration calls returned zero. *)
Definition attr_setup_ok (pf : platform) : Prop :=
  attr_init_ret pf = 0 ∧ attr_setstacksize_ret pf = 0.

(** Attribute setup failed: one of the two configuration calls returned
    nonzero. *)
Definition attr_setup_fails (pf : platform) : Prop :=
  attr_init_ret pf ≠ 0 ∨ attr_setstacksize_ret pf ≠ 0.

(** The successful path: the allocation, the attribute setup and the
    spawn all succeeded. *)
Definition success_path (pf : platform) : Prop :=
  malloc_ret pf ≠ NULL ∧ attr_setup_ok pf ∧ pthread_create_ret pf = 0.

(** The library calls the shim makes: the four of [_lfi_thread_create]
    and the one of [_lfi_thread_destroy]. *)
Definition shim_call (c : call) : bool :=
  match c with
  | Malloc _ _ | Free _ | PthreadAttrInit _ | PthreadAttrSetstacksize _ _
  | PthreadCreate _ _ _ _ _ => true
  | _ => false
  end.

(** Started threads are only ever added to, and attribute objects only
    ever initialised. *)
Definition grows (w w' : world) : Prop :=
  threads w `prefix_of` threads w' ∧ (live_attrs w ≤ live_attrs w')%nat.

(** A handle that [_lfi_thread_destroy] may be given: the non-null pointer
    returned by a successful [_lfi_thread_create], its block not yet
    released. *)
Definition valid_handle (w : world) (h : ptr) : Prop :=
  h ≠ NULL ∧ is_Some (heap w !! h).

(** ** Vocabulary of the further properties *)

Definition is_malloc (c : call) : bool :=
  match c with Malloc _ _ => true | _ => false end.

(** A [pthread_attr_init] call that succeeded. *)
Definition is_attr_init_ok (c : call) : bool :=
  match c with PthreadAttrInit r => bool_decide (r = 0) | _ => false end.

(** How many attribute objects a log initialised. *)
Definition attr_inits_ok (l : list call) : nat :=
  length (filter (λ c, is_attr_init_ok c = true) l).

(** The four library calls of [_lfi_thread_create], in program order. *)
Definition create_calls (pf : platform) (fn : ptr) : list call :=
  [Malloc (sizeof_pthread_t pf) (malloc_ret pf);
   PthreadAttrInit (attr_init_ret pf);
   PthreadAttrSetstacksize (2 * 1024 * 1024) (attr_setstacksize_ret pf);
   PthreadCreate (malloc_ret pf) attrs_2MiB fn NULL (pthread_create_ret pf)].


(** A host that creates a handle and destroys it at once, once for each
    platform answer in turn. *)
Fixpoint round_trips (fn : ptr) (pfs : list platform) : list op :=
  match pfs with
  | [] => []
  | pf :: pfs' => Create pf fn :: Destroy (malloc_ret pf) :: round_trips fn pfs'
  end.

(** A host that only creates, once for each platform answer in turn. *)
Definition creates (fn : ptr) (pfs : list platform) : list op :=
  map (λ pf, Create pf fn) pfs.

(** The thread record a successful spawn adds. *)
Definition spawned (pf : platform) (fn : ptr) : thread :=
  {| th_id := new_tid pf; th_entry := fn; th_arg := NULL;
     th_stacksize := 2 * 1024 * 1024 |}.

(** ** Concrete platforms *)

Definition w_empty : world := {| heap := ∅; live_attrs := 0; threads := [] |}.

(** An entry function somewhere in the text segment. *)
Definition fn_entry : ptr := 4198400.

(** Everything succeeds: an 8-byte [pthread_t] at 0x1000, 8 MiB default
    stacks. *)
Definition pf_ok : platform :=
  {| sizeof_pthread_t := 8; default_stacksize := 8388608; malloc_ret := 4096;
     attr_init_ret := 0; attr_setstacksize_ret := 0; pthread_create_ret := 0;
     new_tid := 7; refused_store := None |}.

(** The stack-size setter refuses with EINVAL. *)
Definition pf_einval : platform :=
  {| sizeof_pthread_t := 8; default_stacksize := 8388608; malloc_ret := 4096;
     attr_init_ret := 0; attr_setstacksize_ret := 22; pthread_create_ret := 0;
     new_tid := 7; refused_store := None |}.

(** The thread cannot be started: [pthread_create] answers EAGAIN, having
    already written a descriptor through [t]. *)
Definition pf_eagain : platform :=
  {| sizeof_pthread_t := 8; default_stacksize := 8388608; malloc_ret := 4096;
     attr_init_ret := 0; attr_setstacksize_ret := 0; pthread_create_ret := 11;
     new_tid := 7; refused_store := Some 7 |}.

(** Memory is exhausted: [malloc] answers NULL and [pthread_create] has
    EAGAIN for an answer. *)
Definition pf_oom : platform :=
  {| sizeof_pthread_t := 8; default_stacksize := 8388608; malloc_ret := NULL;
     attr_init_ret := 0; attr_setstacksize_ret := 0; pthread_create_ret := 11;
     new_tid := 7; refused_store := None |}.

(** The stack-size setter refuses again, the block is at 0x2000. *)
Definition pf_einval_2 : platform :=
  {| sizeof_pthread_t := 8; default_stacksize := 8388608; malloc_ret := 8192;
     attr_init_ret := 0; attr_setstacksize_ret := 22; pthread_create_ret := 0;
     new_tid := 8; refused_store := None |}.

(** [malloc] answers NULL, every later call succeeds. *)
Definition pf_null_spawn : platform :=
  {| sizeof_pthread_t := 8; default_stacksize := 8388608; malloc_ret := NULL;
     attr_init_ret := 0; attr_setstacksize_ret := 0; pthread_create_ret := 0;
     new_tid := 7; refused_store := None |}.

(** ** Paths through [_lfi_thread_create] *)

Lemma malloc_out answer size w : out (malloc answer size w) = Val answer.
Proof. unfold malloc. case_decide; simpl; congruence. Qed.

Lemma malloc_log answer size w : log (malloc answer size w) = [Malloc size answer].
Proof. unfold malloc. case_decide; simpl; congruence. Qed.

Lemma after_malloc_threads pf w : threads (after_malloc pf w) = threads w.
Proof. unfold after_malloc, malloc. by case_decide. Qed.

Lemma after_malloc_live_attrs pf w : live_attrs (after_malloc pf w) = live_attrs w.
Proof. unfold after_malloc, malloc. by case_decide. Qed.

Lemma after_malloc_lookup pf w :
  malloc_ret pf ≠ NULL →
  heap (after_malloc pf w) !! malloc_ret pf
  = Some {| blk_size := sizeof_pthread_t pf; blk_tid := None |}.
Proof.
  intros Hnn. unfold after_malloc, malloc.
  case_decide; [done|]. simpl. apply lookup_insert_eq.
Qed.


(** First exit: [pthread_attr_init] returned nonzero. *)
Lemma create_init_fails pf fn w :
  attr_init_ret pf ≠ 0 →
  _lfi_thread_create pf fn w
  = {| out := Val NULL;
       post := after_malloc pf w;
       log := [Malloc (sizeof_pthread_t pf) (malloc_ret pf);
               PthreadAttrInit (attr_init_ret pf)] |}.
Proof.
  intros Hr. unfold _lfi_thread_create, mbind, M_bind. cbn beta zeta.
  rewrite malloc_out, malloc_log. fold (after_malloc pf w).
  unfold pthread_attr_init. case_decide; [done|]. simpl.
  case_decide; [|done]. reflexivity.
Qed.

(** Second exit: [pthread_attr_setstacksize] returned nonzero. *)
Lemma create_setstacksize_fails pf fn w :
  attr_init_ret pf = 0 → attr_setstacksize_ret pf ≠ 0 →
  _lfi_thread_create pf fn w
  = {| out := Val NULL;
       post := set_live_attrs (S (live_attrs w)) (after_malloc pf w);
       log := [Malloc (sizeof_pthread_t pf) (malloc_ret pf);
               PthreadAttrInit 0;
               PthreadAttrSetstacksize (2 * 1024 * 1024) (attr_setstacksize_ret pf)] |}.
Proof.
  intros Hi Hs. unfold _lfi_thread_create, mbind, M_bind. cbn beta zeta.
  rewrite malloc_out, malloc_log. fold (after_malloc pf w).
  unfold pthread_attr_init. rewrite Hi. simpl.
  unfold pthread_attr_setstacksize. simpl.
  case_decide; [done|]. simpl. case_decide; [|done].
  by rewrite after_malloc_live_attrs.
Qed.

Lemma pthread_create_log answer tid stored t a fn arg w :
  log (pthread_create answer tid stored t a fn arg w)
  = [PthreadCreate t a fn arg answer].
Proof.
  unfold pthread_create. cbn zeta.
  destruct (attr_initialized a); [|done].
  destruct (heap w !! t); [|done]. by case_decide.
Qed.

(** Past both checks: the rest of the call is [pthread_create] followed by
    [return t], whatever [pthread_create] answers. *)
Lemma create_reaches_spawn pf fn w :
  attr_setup_ok pf →
  let w1 := set_live_attrs (S (live_attrs w)) (after_malloc pf w) in
  let r := pthread_create (pthread_create_ret pf) (new_tid pf) (refused_store pf)
             (malloc_ret pf) attrs_2MiB fn NULL w1 in
  _lfi_thread_create pf fn w
  = {| out := match out r with Val _ => Val (malloc_ret pf) | Fault => Fault end;
       post := post r;
       log := [Malloc (sizeof_pthread_t pf) (malloc_ret pf);
               PthreadAttrInit 0;
               PthreadAttrSetstacksize (2 * 1024 * 1024) 0;
               PthreadCreate (malloc_ret pf) attrs_2MiB fn NULL (pthread_create_ret pf)] |}.
Proof.
  intros [Hi Hs]. unfold _lfi_thread_create, mbind, M_bind. cbn beta zeta.
  rewrite malloc_out, malloc_log. fold (after_malloc pf w).
  unfold pthread_attr_init. rewrite Hi. simpl.
  unfold pthread_attr_setstacksize. simpl. rewrite Hs. simpl.
  rewrite after_malloc_live_attrs. fold attrs_2MiB.
  rewrite pthread_create_log.
  by destruct (out (pthread_create _ _ _ _ _ _ _ _)).
Qed.

(** The spawn when the identifier block is live and the platform starts
    the thread. *)
Lemma spawn_started pf fn w1 b :
  pthread_create_ret pf = 0 →
  heap w1 !! malloc_ret pf = Some b →
  pthread_create (pthread_create_ret pf) (new_tid pf) (refused_store pf)
    (malloc_ret pf) attrs_2MiB fn NULL w1
  = did (PthreadCreate (malloc_ret pf) attrs_2MiB fn NULL 0) 0
      (set_threads
         (threads w1 ++ [{| th_id := new_tid pf; th_entry := fn; th_arg := NULL;
                            th_stacksize := 2 * 1024 * 1024 |}])
         (set_heap (<[malloc_ret pf := {| blk_size := blk_size b;
                                          blk_tid := Some (new_tid pf) |}]> (heap w1)) w1)).
Proof.
  intros Hc Hb. unfold pthread_create. cbn zeta. simpl attr_initialized.
  rewrite Hb, Hc. by case_decide.
Qed.

(** The spawn when the platform refuses to start the thread. *)
Lemma spawn_refused pf fn w1 b :
  pthread_create_ret pf ≠ 0 →
  heap w1 !! malloc_ret pf = Some b →
  pthread_create (pthread_create_ret pf) (new_tid pf) (refused_store pf)
    (malloc_ret pf) attrs_2MiB fn NULL w1
  = did (PthreadCreate (malloc_ret pf) attrs_2MiB fn NULL (pthread_create_ret pf))
        (pthread_create_ret pf)
        (set_heap (<[malloc_ret pf := {| blk_size := blk_size b;
                                         blk_tid := refused_store pf |}]> (heap w1)) w1).
Proof.
  intros Hc Hb. unfold pthread_create. cbn zeta. simpl attr_initialized.
  rewrite Hb. by case_decide.
Qed.


(** The complete result of the successful path. *)
Lemma create_success pf fn w :
  success_path pf →
  _lfi_thread_create pf fn w
  = {| out := Val (malloc_ret pf);
       post :=
         {| heap := <[malloc_ret pf := {| blk_size := sizeof_pthread_t pf;
                                          blk_tid := Some (new_tid pf) |}]> (heap w);
            live_attrs := S (live_attrs w);
            threads := threads w ++ [{| th_id := new_tid pf; th_entry := fn;
                                        th_arg := NULL;
                                        th_stacksize := 2 * 1024 * 1024 |}] |};
       log := [Malloc (sizeof_pthread_t pf) (malloc_ret pf);
               PthreadAttrInit 0;
               PthreadAttrSetstacksize (2 * 1024 * 1024) 0;
               PthreadCreate (malloc_ret pf) attrs_2MiB fn NULL 0] |}.
Proof.
  intros (Hm & Hok & Hc).
  rewrite (create_reaches_spawn pf fn w Hok). cbn zeta.
  erewrite spawn_started; [|done|].
  2:{ simpl. by apply after_malloc_lookup. }
  simpl. rewrite Hc, after_malloc_threads. f_equal.
  unfold set_threads, set_heap; simpl. f_equal.
  unfold after_malloc, malloc. case_decide; [done|]. simpl.
  apply insert_insert_eq.
Qed.

(** ** What no call of the shim ever does *)

Lemma grows_refl w : grows w w.
Proof. split; [done | lia]. Qed.

Lemma grows_trans w1 w2 w3 : grows w1 w2 → grows w2 w3 → grows w1 w3.
Proof. intros [Ha Hb] [Hc Hd]. split; [by etrans | lia]. Qed.

Lemma pthread_create_grows answer tid stored t a fn arg w :
  grows w (post (pthread_create answer tid stored t a fn arg w)).
Proof.
  unfold pthread_create. cbn zeta.
  destruct (attr_initialized a); [|apply grows_refl].
  destruct (heap w !! t); [|apply grows_refl].
  case_decide; split; simpl; [by apply prefix_app_r | lia | done | lia].
Qed.

Lemma after_malloc_grows pf w : grows w (after_malloc pf w).
Proof.
  split; [by rewrite after_malloc_threads | rewrite after_malloc_live_attrs; lia].
Qed.

Lemma attr_initialised_grows pf w :
  grows w (set_live_attrs (S (live_attrs w)) (after_malloc pf w)).
Proof.
  split; simpl; [by rewrite after_malloc_threads | lia].
Qed.

Lemma create_grows pf fn w : grows w (post (_lfi_thread_create pf fn w)).
Proof.
  destruct (decide (attr_init_ret pf = 0)) as [Hi|Hi].
  - destruct (decide (attr_setstacksize_ret pf = 0)) as [Hs|Hs].
    + rewrite (create_reaches_spawn pf fn w (conj Hi Hs)). cbn zeta. simpl post.
      eapply grows_trans; [|apply pthread_create_grows].
      apply attr_initialised_grows.
    + rewrite (create_setstacksize_fails pf fn w Hi Hs). simpl post.
      apply attr_initialised_grows.
  - rewrite (create_init_fails pf fn w Hi). apply after_malloc_grows.
Qed.

Lemma create_log_shim pf fn w :
  Forall (λ c, shim_call c = true) (log (_lfi_thread_create pf fn w)).
Proof.
  destruct (decide (attr_init_ret pf = 0)) as [Hi|Hi].
  - destruct (decide (attr_setstacksize_ret pf = 0)) as [Hs|Hs].
    + rewrite (create_reaches_spawn pf fn w (conj Hi Hs)). cbn zeta. simpl log.
      repeat constructor.
    + rewrite (create_setstacksize_fails pf fn w Hi Hs). repeat constructor.
  - rewrite (create_init_fails pf fn w Hi). repeat constructor.
Qed.

(** [free] in full: every field but the heap is kept, and the heap loses
    at most the block named. *)
Lemma free_log p w : log (free p w) = [Free p].
Proof. unfold free. case_decide; [done|]. by destruct (heap w !! p). Qed.

Lemma free_grows p w : grows w (post (free p w)).
Proof.
  unfold free. case_decide; [apply grows_refl|].
  destruct (heap w !! p); split; simpl; done || lia.
Qed.

Lemma exec_grows o w : grows w (post (exec o w)).
Proof.
  destruct o as [pf fn|h]; simpl.
  - unfold mbind, M_bind. cbn zeta.
    destruct (out (_lfi_thread_create pf fn w)); apply create_grows.
  - apply free_grows.
Qed.

Lemma exec_log_shim o w : Forall (λ c, shim_call c = true) (log (exec o w)).
Proof.
  destruct o as [pf fn|h]; simpl.
  - unfold mbind, M_bind. cbn zeta.
    destruct (out (_lfi_thread_create pf fn w)); simpl;
      rewrite ?app_nil_r; apply create_log_shim.
  - unfold _lfi_thread_destroy. rewrite free_log. repeat constructor.
Qed.

Lemma run_grows os : ∀ w, grows w (post (run os w)).
Proof.
  induction os as [|o os IH]; intros w; simpl.
  - apply grows_refl.
  - unfold mbind, M_bind. cbn zeta.
    destruct (out (exec o w)); simpl.
    + eapply grows_trans; [apply exec_grows | apply IH].
    + apply exec_grows.
Qed.

Lemma run_log_shim os : ∀ w, Forall (λ c, shim_call c = true) (log (run os w)).
Proof.
  induction os as [|o os IH]; intros w; simpl.
  - constructor.
  - unfold mbind, M_bind. cbn zeta.
    destruct (out (exec o w)); simpl.
    + apply Forall_app. split; [apply exec_log_shim | apply IH].
    + apply exec_log_shim.
Qed.

Lemma shim_call_not_attr_destroy c : shim_call c = true → is_attr_destroy c = false.
Proof. by destruct c. Qed.

Lemma shim_call_not_thread_sync c : shim_call c = true → is_thread_sync c = false.
Proof. by destruct c. Qed.

(** A thread once started keeps its record, stack size included, through
    every later call of the shim. *)
Lemma run_keeps_thread os w i th :
  threads w !! i = Some th → threads (post (run os w)) !! i = Some th.
Proof.
  intros Hth. destruct (run_grows os w) as [Hp _].
  by eapply prefix_lookup_Some.
Qed.

(** ** Handles *)

Lemma create_success_valid_handle pf fn w :
  success_path pf →
  valid_handle (post (_lfi_thread_create pf fn w)) (malloc_ret pf).
Proof.
  intros Hok. rewrite (create_success pf fn w Hok).
  split; [apply Hok|]. cbn [post heap]. rewrite lookup_insert_eq. by eexists.
Qed.

Lemma destroy_valid w h :
  valid_handle w h →
  _lfi_thread_destroy h w
  = {| out := Val tt; post := set_heap (delete h (heap w)) w; log := [Free h] |}.
Proof.
  intros [Hn [b Hb]]. unfold _lfi_thread_destroy, free.
  case_decide; [done|]. by rewrite Hb.
Qed.

Lemma pthread_create_live_attrs answer tid stored t a fn arg w :
  live_attrs (post (pthread_create answer tid stored t a fn arg w)) = live_attrs w.
Proof.
  unfold pthread_create. cbn zeta.
  destruct (attr_initialized a); [|done].
  destruct (heap w !! t); [|done]. by case_decide.
Qed.

(** ** The shim on the concrete platforms *)

Example create_ok_runs :
  let r := _lfi_thread_create pf_ok fn_entry w_empty in
  out r = Val 4096
  ∧ threads (post r) = [{| th_id := 7; th_entry := fn_entry; th_arg := 0;
                           th_stacksize := 2097152 |}]
  ∧ log r = [Malloc 8 4096; PthreadAttrInit 0; PthreadAttrSetstacksize 2097152 0;
             PthreadCreate 4096 {| attr_initialized := true;
                                   attr_stacksize := 2097152 |} fn_entry 0 0].
Proof. by vm_compute. Qed.

Example create_einval_runs :
  let r := _lfi_thread_create pf_einval fn_entry w_empty in
  out r = Val 0 ∧ threads (post r) = []
  ∧ log r = [Malloc 8 4096; PthreadAttrInit 0; PthreadAttrSetstacksize 2097152 22].
Proof. by vm_compute. Qed.

Example create_null_spawn_faults :
  out (_lfi_thread_create pf_null_spawn fn_entry w_empty) = Fault.
Proof. by vm_compute. Qed.

(** ** The claims *)

(** C1. Whatever the entry function, if attribute initialisation or the
    stack-size configuration fails ([pthread_attr_init] or
    [pthread_attr_setstacksize] returns nonzero), [_lfi_thread_create]
    returns NULL and spawns no thread: there is no [pthread_create] call in
    its log and the started threads are the ones there were. *)
Theorem create_attr_failure_returns_null pf fn w :
  attr_setup_fails pf →
  let r := _lfi_thread_create pf fn w in
  out r = Val NULL
  ∧ Forall (λ c, is_pthread_create c = false) (log r)
  ∧ threads (post r) = threads w.
Proof.
  intros Hf. cbn zeta.
  destruct (decide (attr_init_ret pf = 0)) as [Hi|Hi].
  - destruct Hf as [Hf|Hs]; [done|].
    rewrite (create_setstacksize_fails pf fn w Hi Hs). simpl.
    split_and!; [done | repeat constructor | apply after_malloc_threads].
  - rewrite (create_init_fails pf fn w Hi). simpl.
    split_and!; [done | repeat constructor | apply after_malloc_threads].
Qed.

Lemma create_attr_failure_returns_null_witness :
  attr_setup_fails pf_einval
  ∧ out (_lfi_thread_create pf_einval fn_entry w_empty) = Val NULL.
Proof.
  assert (Hf : attr_setup_fails pf_einval) by (right; simpl; lia).
  split; [exact Hf|].
  exact (proj1 (create_attr_failure_returns_null pf_einval fn_entry w_empty Hf)).
Defined.

(** C2. Whatever the entry function, on the successful path the native
    thread is spawned with a stack of exactly 2 MiB (2 * 1024 * 1024 =
    2097152 bytes).  The size is fixed before the spawn: the
    [pthread_attr_setstacksize] call precedes the [pthread_create] call,
    which is the last call made and is handed the attribute object carrying
    2097152.  It is never changed afterwards: through every later sequence
    of calls of the shim the thread keeps its record and its stack size. *)
Theorem create_stack_size_2MiB pf fn w :
  success_path pf →
  let r := _lfi_thread_create pf fn w in
  let th := {| th_id := new_tid pf; th_entry := fn; th_arg := NULL;
               th_stacksize := 2097152 |} in
  2 * 1024 * 1024 = 2097152
  ∧ log r = [Malloc (sizeof_pthread_t pf) (malloc_ret pf);
             PthreadAttrInit 0;
             PthreadAttrSetstacksize 2097152 0;
             PthreadCreate (malloc_ret pf)
               {| attr_initialized := true; attr_stacksize := 2097152 |} fn NULL 0]
  ∧ threads (post r) = threads w ++ [th]
  ∧ ∀ os, threads (post (run os (post r))) !! length (threads w) = Some th.
Proof.
  intros Hok. cbn zeta. rewrite (create_success pf fn w Hok).
  split_and!; [done | done | done |].
  intros os. apply run_keeps_thread. simpl.
  by apply list_lookup_middle.
Qed.

Lemma create_stack_size_2MiB_witness :
  success_path pf_ok
  ∧ threads (post (run [Destroy 4096; Create pf_eagain fn_entry]
                     (post (_lfi_thread_create pf_ok fn_entry w_empty))))
      !! 0%nat
    = Some {| th_id := 7; th_entry := fn_entry; th_arg := NULL;
              th_stacksize := 2097152 |}.
Proof.
  assert (Hok : success_path pf_ok) by (repeat split; simpl; unfold NULL; lia).
  split; [exact Hok|].
  exact (proj2 (proj2 (proj2 (create_stack_size_2MiB pf_ok fn_entry w_empty Hok)))
           [Destroy 4096; Create pf_eagain fn_entry]).
Defined.

(** C3, as stated, fails: attribute setup succeeds and [pthread_create]
    does not start a thread, yet no non-null handle comes back, because the
    allocation at entry had failed and its unchecked result, NULL, is what
    the create hands to [pthread_create] and what it has to return. *)
Lemma create_unchecked_spawn_counterexample :
  ¬ (attr_setup_ok pf_oom → pthread_create_ret pf_oom ≠ 0 →
     ∃ h, h ≠ NULL ∧ out (_lfi_thread_create pf_oom fn_entry w_empty) = Val h).
Proof.
  intros Hclaim.
  destruct Hclaim as (h & Hh & Hout).
  - split; reflexivity.
  - simpl. lia.
  - vm_compute in Hout. discriminate Hout.
Qed.

(** C3, amended. [_lfi_thread_create] does not check the result of
    [pthread_create]: whatever the entry function, when the allocation at
    entry succeeded and attribute setup succeeds, the value returned is the
    non-null pointer to the allocated block whatever [pthread_create]
    answers; when it answers nonzero, no thread was started, the call was
    made all the same, and the block is still live, of the size allocated,
    holding whatever the library left in it. *)
Theorem create_unchecked_spawn pf fn w :
  malloc_ret pf ≠ NULL →
  attr_setup_ok pf →
  let r := _lfi_thread_create pf fn w in
  out r = Val (malloc_ret pf)
  ∧ (pthread_create_ret pf ≠ 0 →
     threads (post r) = threads w
     ∧ last (log r) = Some (PthreadCreate (malloc_ret pf) attrs_2MiB fn NULL
                              (pthread_create_ret pf))
     ∧ ∃ b, heap (post r) !! malloc_ret pf = Some b
            ∧ blk_size b = sizeof_pthread_t pf).
Proof.
  intros Hm Hok. cbn zeta.
  destruct (decide (pthread_create_ret pf = 0)) as [Hc|Hc].
  - rewrite (create_success pf fn w (conj Hm (conj Hok Hc))). by split.
  - rewrite (create_reaches_spawn pf fn w Hok). cbn zeta.
    erewrite (spawn_refused pf fn _ _ Hc).
    2:{ simpl. by apply after_malloc_lookup. }
    cbn [out post log did]. split; [done|]. intros _.
    split_and!; [simpl; apply after_malloc_threads | done |].
    eexists. split; [apply lookup_insert_eq | done].
Qed.

Lemma create_unchecked_spawn_witness :
  malloc_ret pf_eagain ≠ NULL
  ∧ attr_setup_ok pf_eagain
  ∧ out (_lfi_thread_create pf_eagain fn_entry w_empty) = Val 4096.
Proof.
  assert (Hm : malloc_ret pf_eagain ≠ NULL) by (simpl; unfold NULL; lia).
  assert (Hok : attr_setup_ok pf_eagain) by (split; reflexivity).
  split_and!; [exact Hm | exact Hok |].
  exact (proj1 (create_unchecked_spawn pf_eagain fn_entry w_empty Hm Hok)).
Defined.

(** C4. On the attribute-failure path the block allocated for the thread
    identifier is never freed: [_lfi_thread_create] returns NULL, makes no
    [free] call, and leaves the heap as the allocation at entry left it.  So
    a block handed out by [malloc] is still live at the exit and, being a
    new block, the heap is not the heap from before the call. *)
Theorem create_attr_failure_leaks_block pf fn w :
  attr_setup_fails pf →
  let r := _lfi_thread_create pf fn w in
  out r = Val NULL
  ∧ Forall (λ c, is_free c = false) (log r)
  ∧ heap (post r) = heap (after_malloc pf w)
  ∧ (malloc_ret pf ≠ NULL →
     heap (post r) !! malloc_ret pf
     = Some {| blk_size := sizeof_pthread_t pf; blk_tid := None |}
     ∧ (heap w !! malloc_ret pf = None → heap (post r) ≠ heap w)).
Proof.
  intros Hf. cbn zeta.
  assert (Hleak : malloc_ret pf ≠ NULL →
            heap (after_malloc pf w) !! malloc_ret pf
            = Some {| blk_size := sizeof_pthread_t pf; blk_tid := None |}
            ∧ (heap w !! malloc_ret pf = None → heap (after_malloc pf w) ≠ heap w)).
  { intros Hm. pose proof (after_malloc_lookup pf w Hm) as Hl.
    split; [done|]. intros Hfresh Heq. rewrite Heq in Hl. congruence. }
  destruct (decide (attr_init_ret pf = 0)) as [Hi|Hi].
  - destruct Hf as [Hf|Hs]; [done|].
    rewrite (create_setstacksize_fails pf fn w Hi Hs). simpl.
    split_and!; [done | repeat constructor | done | done].
  - rewrite (create_init_fails pf fn w Hi). simpl.
    split_and!; [done | repeat constructor | done | done].
Qed.

Lemma create_attr_failure_leaks_block_witness :
  attr_setup_fails pf_einval
  ∧ heap (post (_lfi_thread_create pf_einval fn_entry w_empty)) !! 4096
    = Some {| blk_size := 8; blk_tid := None |}
  ∧ heap (post (_lfi_thread_create pf_einval fn_entry w_empty)) ≠ heap w_empty.
Proof.
  assert (Hf : attr_setup_fails pf_einval) by (right; simpl; lia).
  assert (Hm : malloc_ret pf_einval ≠ NULL) by (simpl; unfold NULL; lia).
  pose proof (create_attr_failure_leaks_block pf_einval fn_entry w_empty Hf)
    as (_ & _ & _ & Hleak).
  destruct (Hleak Hm) as [Hlive Hne].
  split_and!; [exact Hf | exact Hlive | exact (Hne eq_refl)].
Defined.

(** C5. Whatever the entry function, on the successful path exactly one
    thread is spawned; it is bound to that entry function and given a null
    argument, and the value returned is the pointer to the block allocated
    at entry, which now holds the thread's identifier. *)
Theorem create_binds_entry_null_arg pf fn w :
  success_path pf →
  let r := _lfi_thread_create pf fn w in
  out r = Val (malloc_ret pf)
  ∧ malloc_ret pf ≠ NULL
  ∧ heap (post r) !! malloc_ret pf
    = Some {| blk_size := sizeof_pthread_t pf; blk_tid := Some (new_tid pf) |}
  ∧ filter (λ c, is_pthread_create c = true) (log r)
    = [PthreadCreate (malloc_ret pf) attrs_2MiB fn NULL 0]
  ∧ ∃ th, threads (post r) = threads w ++ [th]
          ∧ th_entry th = fn ∧ th_arg th = NULL ∧ th_id th = new_tid pf.
Proof.
  intros Hok. cbn zeta. rewrite (create_success pf fn w Hok). simpl.
  split_and!; [done | apply Hok | apply lookup_insert_eq | done |].
  eexists. split; [reflexivity|]. done.
Qed.

Lemma create_binds_entry_null_arg_witness :
  success_path pf_ok
  ∧ out (_lfi_thread_create pf_ok fn_entry w_empty) = Val 4096.
Proof.
  assert (Hok : success_path pf_ok) by (repeat split; simpl; unfold NULL; lia).
  split; [exact Hok|].
  exact (proj1 (create_binds_entry_null_arg pf_ok fn_entry w_empty Hok)).
Defined.

(** C6. For a handle returned by a successful [_lfi_thread_create],
    [_lfi_thread_destroy] releases exactly the block backing the thread
    identifier and does nothing else: its only library call is the [free]
    of that block, so it neither joins, detaches, cancels nor signals the
    thread; the block is gone, every other block is as it was, and the
    started threads and the attribute objects are untouched. *)
Theorem destroy_frees_exactly_handle_block w h :
  valid_handle w h →
  let r := _lfi_thread_destroy h w in
  out r = Val tt
  ∧ log r = [Free h]
  ∧ Forall (λ c, is_thread_sync c = false) (log r)
  ∧ post r = set_heap (delete h (heap w)) w
  ∧ heap (post r) !! h = None
  ∧ (∀ p, p ≠ h → heap (post r) !! p = heap w !! p)
  ∧ threads (post r) = threads w
  ∧ live_attrs (post r) = live_attrs w.
Proof.
  intros Hv. cbn zeta. rewrite (destroy_valid w h Hv). simpl.
  split_and!; try done.
  - repeat constructor.
  - apply lookup_delete_eq.
  - intros p Hp. by apply lookup_delete_ne.
Qed.

Lemma destroy_frees_exactly_handle_block_witness :
  valid_handle (post (_lfi_thread_create pf_ok fn_entry w_empty)) 4096
  ∧ log (_lfi_thread_destroy 4096 (post (_lfi_thread_create pf_ok fn_entry w_empty)))
    = [Free 4096]
  ∧ threads (post (_lfi_thread_destroy 4096
                     (post (_lfi_thread_create pf_ok fn_entry w_empty))))
    = threads (post (_lfi_thread_create pf_ok fn_entry w_empty)).
Proof.
  assert (Hv : valid_handle (post (_lfi_thread_create pf_ok fn_entry w_empty)) 4096).
  { split; [unfold NULL; lia | by eexists]. }
  pose proof (destroy_frees_exactly_handle_block _ _ Hv)
    as (_ & Hlog & _ & _ & _ & _ & Hth & _).
  split_and!; [exact Hv | exact Hlog | exact Hth].
Defined.

(** C7. Whatever the entry function, a successful [_lfi_thread_create]
    followed at once by [_lfi_thread_destroy] of the handle it returned
    does not fault and frees exactly the block the create allocated: the
    one [free] call is on that block, the block is no longer live, and the
    heap is the heap from before the create. *)
Theorem create_then_destroy_restores_heap pf fn w :
  success_path pf →
  heap w !! malloc_ret pf = None →
  let r := (h ← _lfi_thread_create pf fn; _lfi_thread_destroy h) w in
  out r = Val tt
  ∧ filter (λ c, is_free c = true) (log r) = [Free (malloc_ret pf)]
  ∧ heap (post r) !! malloc_ret pf = None
  ∧ heap (post r) = heap w.
Proof.
  intros Hok Hfresh. cbn zeta.
  pose proof (create_success_valid_handle pf fn w Hok) as Hv.
  unfold mbind, M_bind. cbn zeta.
  rewrite (create_success pf fn w Hok) in Hv |- *. cbn [out post log] in Hv |- *.
  rewrite (destroy_valid _ _ Hv). cbn [out post log heap set_heap].
  split_and!; [done | done | apply lookup_delete_eq |].
  rewrite delete_insert_eq. by apply delete_id.
Qed.

Lemma create_then_destroy_restores_heap_witness :
  success_path pf_ok
  ∧ heap w_empty !! malloc_ret pf_ok = None
  ∧ heap (post ((h ← _lfi_thread_create pf_ok fn_entry; _lfi_thread_destroy h) w_empty))
    = heap w_empty.
Proof.
  assert (Hok : success_path pf_ok) by (repeat split; simpl; unfold NULL; lia).
  assert (Hfresh : heap w_empty !! malloc_ret pf_ok = None) by reflexivity.
  split_and!; [exact Hok | exact Hfresh |].
  exact (proj2 (proj2 (proj2
           (create_then_destroy_restores_heap pf_ok fn_entry w_empty Hok Hfresh)))).
Defined.

(** C8. [_lfi_thread_destroy] of a null handle is a no-op: the call is
    [free(NULL)], it does not fault, releases nothing and leaves the whole
    state as it was. *)
Theorem destroy_null_is_noop w :
  _lfi_thread_destroy NULL w = {| out := Val tt; post := w; log := [Free NULL] |}.
Proof. reflexivity. Qed.

(** C9. [_lfi_thread_create] never checks the result of the allocation:
    when [malloc] returns NULL it goes on to [pthread_attr_init] all the
    same and, if attribute setup succeeds, calls [pthread_create] with a
    null identifier pointer.  No check stands between the failed allocation
    and that call. *)
Theorem create_null_alloc_unguarded pf fn w :
  malloc_ret pf = NULL →
  let r := _lfi_thread_create pf fn w in
  (∃ rest, log r = Malloc (sizeof_pthread_t pf) NULL
                   :: PthreadAttrInit (attr_init_ret pf) :: rest)
  ∧ (attr_setup_ok pf →
     last (log r)
     = Some (PthreadCreate NULL attrs_2MiB fn NULL (pthread_create_ret pf))).
Proof.
  intros Hm. cbn zeta. split.
  - destruct (decide (attr_init_ret pf = 0)) as [Hi|Hi].
    + destruct (decide (attr_setstacksize_ret pf = 0)) as [Hs|Hs].
      * rewrite (create_reaches_spawn pf fn w (conj Hi Hs)). cbn zeta. simpl log.
        rewrite Hm, Hi. by eexists.
      * rewrite (create_setstacksize_fails pf fn w Hi Hs). simpl log.
        rewrite Hm, Hi. by eexists.
    + rewrite (create_init_fails pf fn w Hi). simpl log. rewrite Hm. by eexists.
  - intros Hok. rewrite (create_reaches_spawn pf fn w Hok). cbn zeta.
    cbn [out log]. by rewrite Hm.
Qed.

Lemma create_null_alloc_unguarded_witness :
  malloc_ret pf_null_spawn = NULL
  ∧ last (log (_lfi_thread_create pf_null_spawn fn_entry w_empty))
    = Some (PthreadCreate NULL attrs_2MiB fn_entry NULL 0).
Proof.
  assert (Hm : malloc_ret pf_null_spawn = NULL) by reflexivity.
  assert (Hok : attr_setup_ok pf_null_spawn) by (split; reflexivity).
  split; [exact Hm|].
  exact (proj2 (create_null_alloc_unguarded pf_null_spawn fn_entry w_empty Hm) Hok).
Defined.

(** C10. On every path of [_lfi_thread_create] on which
    [pthread_attr_init] succeeds, the successful spawn included, the
    attribute object it initialised is never released: at the exit there is
    one more live attribute object than at entry and no
    [pthread_attr_destroy] call was made.  Nor is one made anywhere else in
    the program: no later sequence of calls of the shim makes that call or
    brings the count back down. *)
Theorem create_never_releases_attrs pf fn w :
  attr_init_ret pf = 0 →
  let r := _lfi_thread_create pf fn w in
  live_attrs (post r) = S (live_attrs w)
  ∧ Forall (λ c, is_attr_destroy c = false) (log r)
  ∧ ∀ os, Forall (λ c, is_attr_destroy c = false) (log (run os (post r)))
          ∧ (S (live_attrs w) ≤ live_attrs (post (run os (post r))))%nat.
Proof.
  intros Hi. cbn zeta.
  assert (Hlive : live_attrs (post (_lfi_thread_create pf fn w)) = S (live_attrs w)).
  { destruct (decide (attr_setstacksize_ret pf = 0)) as [Hs|Hs].
    - rewrite (create_reaches_spawn pf fn w (conj Hi Hs)). cbn zeta. cbn [post].
      by rewrite pthread_create_live_attrs.
    - by rewrite (create_setstacksize_fails pf fn w Hi Hs). }
  split_and!.
  - exact Hlive.
  - eapply Forall_impl; [apply create_log_shim|]. apply shim_call_not_attr_destroy.
  - intros os. split.
    + eapply Forall_impl; [apply run_log_shim|]. apply shim_call_not_attr_destroy.
    + rewrite <- Hlive. apply run_grows.
Qed.

Lemma create_never_releases_attrs_witness :
  attr_init_ret pf_ok = 0
  ∧ live_attrs (post (_lfi_thread_create pf_ok fn_entry w_empty)) = 1%nat.
Proof.
  assert (Hi : attr_init_ret pf_ok = 0) by reflexivity.
  split; [exact Hi|].
  exact (proj1 (create_never_releases_attrs pf_ok fn_entry w_empty Hi)).
Defined.

(** ** Further properties of the two functions *)

Lemma after_malloc_frame pf w p :
  p ≠ malloc_ret pf → heap (after_malloc pf w) !! p = heap w !! p.
Proof.
  intros Hp. unfold after_malloc, malloc. case_decide; [done|].
  simpl. by apply lookup_insert_ne.
Qed.

Lemma pthread_create_frame answer tid stored t a fn arg w p :
  p ≠ t →
  heap (post (pthread_create answer tid stored t a fn arg w)) !! p = heap w !! p.
Proof.
  intros Hp. unfold pthread_create. cbn zeta.
  destruct (attr_initialized a); [|done].
  destruct (heap w !! t) eqn:Ht; [|done].
  case_decide; simpl; by apply lookup_insert_ne.
Qed.

(** The three ways through [_lfi_thread_create], each with its result. *)
Lemma create_cases pf fn w :
  (attr_init_ret pf ≠ 0
   ∧ _lfi_thread_create pf fn w
     = {| out := Val NULL; post := after_malloc pf w;
          log := [Malloc (sizeof_pthread_t pf) (malloc_ret pf);
                  PthreadAttrInit (attr_init_ret pf)] |})
  ∨ (attr_init_ret pf = 0 ∧ attr_setstacksize_ret pf ≠ 0
     ∧ _lfi_thread_create pf fn w
       = {| out := Val NULL;
            post := set_live_attrs (S (live_attrs w)) (after_malloc pf w);
            log := [Malloc (sizeof_pthread_t pf) (malloc_ret pf);
                    PthreadAttrInit 0;
                    PthreadAttrSetstacksize (2 * 1024 * 1024)
                      (attr_setstacksize_ret pf)] |})
  ∨ (attr_setup_ok pf
     ∧ let r := pthread_create (pthread_create_ret pf) (new_tid pf)
                  (refused_store pf) (malloc_ret pf) attrs_2MiB fn NULL
                  (set_live_attrs (S (live_attrs w)) (after_malloc pf w)) in
       _lfi_thread_create pf fn w
       = {| out := match out r with Val _ => Val (malloc_ret pf) | Fault => Fault end;
            post := post r;
            log := [Malloc (sizeof_pthread_t pf) (malloc_ret pf);
                    PthreadAttrInit 0;
                    PthreadAttrSetstacksize (2 * 1024 * 1024) 0;
                    PthreadCreate (malloc_ret pf) attrs_2MiB fn NULL
                      (pthread_create_ret pf)] |}).
Proof.
  destruct (decide (attr_init_ret pf = 0)) as [Hi|Hi].
  - destruct (decide (attr_setstacksize_ret pf = 0)) as [Hs|Hs].
    + right; right. split; [done|]. by apply create_reaches_spawn.
    + right; left. split_and!; [done | done |]. by apply create_setstacksize_fails.
  - left. split; [done|]. by apply create_init_fails.
Qed.

Lemma create_frame pf fn w p :
  p ≠ malloc_ret pf →
  heap (post (_lfi_thread_create pf fn w)) !! p = heap w !! p.
Proof.
  intros Hp.
  destruct (create_cases pf fn w) as [[_ ->]|[(_ & _ & ->)|[_ Heq]]].
  - by apply after_malloc_frame.
  - simpl. by apply after_malloc_frame.
  - cbn zeta in Heq. rewrite Heq. cbn [post].
    rewrite pthread_create_frame by done. simpl. by apply after_malloc_frame.
Qed.


(** X1. Whatever the platform answers, [_lfi_thread_create] touches no
    heap block other than the one its own [malloc] returned: every other
    address holds after the call what it held before. *)
Theorem create_touches_only_its_block pf fn w p :
  p ≠ malloc_ret pf →
  heap (post (_lfi_thread_create pf fn w)) !! p = heap w !! p.
Proof. apply create_frame. Qed.

Lemma create_touches_only_its_block_witness :
  8192 ≠ malloc_ret pf_ok
  ∧ heap (post (_lfi_thread_create pf_ok fn_entry
                  (set_heap {[ 8192 := {| blk_size := 16; blk_tid := None |} ]} w_empty)))
      !! 8192
    = Some {| blk_size := 16; blk_tid := None |}.
Proof.
  assert (Hp : 8192 ≠ malloc_ret pf_ok) by (simpl; lia).
  split; [exact Hp|].
  exact (create_touches_only_its_block pf_ok fn_entry
           (set_heap {[ 8192 := {| blk_size := 16; blk_tid := None |} ]} w_empty)
           8192 Hp).
Defined.

(** X2. A non-null value returned by [_lfi_thread_create] is always the
    pointer its [malloc] returned, is returned only after both attribute
    calls succeeded, and points to a live block of [sizeof(pthread_t)]
    bytes, whether or not the thread started; so it can be handed to
    [_lfi_thread_destroy]. *)
Theorem create_nonnull_result_is_live_block pf fn w h :
  out (_lfi_thread_create pf fn w) = Val h →
  h ≠ NULL →
  h = malloc_ret pf
  ∧ attr_setup_ok pf
  ∧ valid_handle (post (_lfi_thread_create pf fn w)) h
  ∧ ∃ b, heap (post (_lfi_thread_create pf fn w)) !! h = Some b
         ∧ blk_size b = sizeof_pthread_t pf.
Proof.
  intros Hout Hh.
  destruct (create_cases pf fn w) as [[_ Heq]|[(_ & _ & Heq)|[Hok Heq]]].
  - rewrite Heq in Hout. simpl in Hout. congruence.
  - rewrite Heq in Hout. simpl in Hout. congruence.
  - clear Heq.
    assert (Hm : malloc_ret pf ≠ NULL).
    { intros Hm. rewrite (create_reaches_spawn pf fn w Hok) in Hout.
      cbn zeta in Hout. cbn [out] in Hout.
      destruct (out (pthread_create _ _ _ _ _ _ _ _)); [|done].
      congruence. }
    assert (h = malloc_ret pf) as ->.
    { rewrite (create_reaches_spawn pf fn w Hok) in Hout.
      cbn zeta in Hout. cbn [out] in Hout.
      destruct (out (pthread_create _ _ _ _ _ _ _ _)); [|done].
      congruence. }
    assert (Hb : ∃ b, heap (post (_lfi_thread_create pf fn w)) !! malloc_ret pf = Some b
                      ∧ blk_size b = sizeof_pthread_t pf).
    { destruct (decide (pthread_create_ret pf = 0)) as [Hc|Hc].
      - rewrite (create_success pf fn w (conj Hm (conj Hok Hc))). cbn [post heap].
        rewrite lookup_insert_eq. by eexists.
      - rewrite (create_reaches_spawn pf fn w Hok). cbn zeta.
        erewrite (spawn_refused pf fn _ _ Hc).
        2:{ simpl. by apply after_malloc_lookup. }
        cbn [post did heap set_heap]. rewrite lookup_insert_eq. by eexists. }
    split_and!; [done | done | | done].
    split; [done|]. destruct Hb as (b & Hb & _). by exists b.
Qed.

Lemma create_nonnull_result_is_live_block_witness :
  out (_lfi_thread_create pf_eagain fn_entry w_empty) = Val 4096
  ∧ 4096 ≠ NULL
  ∧ valid_handle (post (_lfi_thread_create pf_eagain fn_entry w_empty)) 4096.
Proof.
  assert (Hout : out (_lfi_thread_create pf_eagain fn_entry w_empty) = Val 4096)
    by reflexivity.
  assert (Hh : 4096 ≠ NULL) by (unfold NULL; lia).
  split_and!; [exact Hout | exact Hh |].
  exact (proj1 (proj2 (proj2
           (create_nonnull_result_is_live_block pf_eagain fn_entry w_empty 4096
              Hout Hh)))).
Defined.






(** X5. Every call of [_lfi_thread_create] makes its library calls in
    program order and stops early only at a failed check: malloc and
    attr_init alone when [pthread_attr_init] returns nonzero; malloc,
    attr_init and attr_setstacksize when that returns nonzero; all four,
    ending in pthread_create, when both return zero.  Whichever it is, there
    is exactly one allocation, of [sizeof(pthread_t)] bytes. *)
Theorem create_calls_in_order pf fn w :
  let l := log (_lfi_thread_create pf fn w) in
  (attr_init_ret pf ≠ 0 → l = take 2 (create_calls pf fn))
  ∧ (attr_init_ret pf = 0 → attr_setstacksize_ret pf ≠ 0 →
     l = take 3 (create_calls pf fn))
  ∧ (attr_init_ret pf = 0 → attr_setstacksize_ret pf = 0 →
     l = create_calls pf fn)
  ∧ filter (λ c, is_malloc c = true) l
    = [Malloc (sizeof_pthread_t pf) (malloc_ret pf)].
Proof.
  cbn zeta. unfold create_calls.
  destruct (create_cases pf fn w) as [[Hi ->]|[(Hi & Hs & ->)|[[Hi Hs] Heq]]].
  - cbn [log take]. split_and!; done.
  - cbn [log take]. rewrite Hi. split_and!; done.
  - cbn zeta in Heq. rewrite Heq. cbn [log take]. rewrite Hi, Hs.
    split_and!; done.
Qed.

(** X6. Destroying the same handle twice is undefined behaviour:
    [_lfi_thread_destroy] keeps no record of what it released and calls
    [free] unguarded, so the second call frees a block that is no longer
    live.  The first call has released the block all the same. *)
Theorem destroy_twice_faults w h :
  valid_handle w h →
  let r := (_ ← _lfi_thread_destroy h; _lfi_thread_destroy h) w in
  out r = Fault
  ∧ log r = [Free h; Free h]
  ∧ post r = set_heap (delete h (heap w)) w.
Proof.
  intros Hv. cbn zeta. unfold mbind, M_bind. cbn zeta.
  rewrite (destroy_valid w h Hv). cbn [out post log].
  unfold _lfi_thread_destroy, free. destruct Hv as [Hn _].
  case_decide; [done|]. simpl. by rewrite lookup_delete_eq.
Qed.

Lemma destroy_twice_faults_witness :
  valid_handle (post (_lfi_thread_create pf_ok fn_entry w_empty)) 4096
  ∧ out ((_ ← _lfi_thread_destroy 4096; _lfi_thread_destroy 4096)
           (post (_lfi_thread_create pf_ok fn_entry w_empty))) = Fault.
Proof.
  assert (Hv : valid_handle (post (_lfi_thread_create pf_ok fn_entry w_empty)) 4096).
  { split; [unfold NULL; lia | by eexists]. }
  split; [exact Hv|].
  exact (proj1 (destroy_twice_faults _ _ Hv)).
Defined.

Lemma attr_inits_ok_cons c l :
  attr_inits_ok (c :: l)
  = ((if is_attr_init_ok c then 1 else 0) + attr_inits_ok l)%nat.
Proof.
  unfold attr_inits_ok. rewrite filter_cons.
  destruct (is_attr_init_ok c); by case_decide.
Qed.

Lemma attr_inits_ok_app l1 l2 :
  attr_inits_ok (l1 ++ l2) = (attr_inits_ok l1 + attr_inits_ok l2)%nat.
Proof. unfold attr_inits_ok. by rewrite filter_app, length_app. Qed.

Lemma create_live_attrs_count pf fn w :
  live_attrs (post (_lfi_thread_create pf fn w))
  = (live_attrs w + attr_inits_ok (log (_lfi_thread_create pf fn w)))%nat.
Proof.
  destruct (create_cases pf fn w) as [[Hi ->]|[(_ & _ & ->)|[_ Heq]]].
  - cbn [post log]. rewrite !attr_inits_ok_cons. cbn [is_attr_init_ok].
    rewrite bool_decide_eq_false_2 by done.
    rewrite after_malloc_live_attrs. unfold attr_inits_ok. simpl. lia.
  - cbn [post log]. rewrite !attr_inits_ok_cons. cbn [is_attr_init_ok].
    unfold attr_inits_ok. simpl. lia.
  - cbn zeta in Heq. rewrite Heq. cbn [post log].
    rewrite pthread_create_live_attrs.
    rewrite !attr_inits_ok_cons. cbn [is_attr_init_ok].
    unfold attr_inits_ok. simpl. lia.
Qed.

Lemma free_live_attrs p w : live_attrs (post (free p w)) = live_attrs w.
Proof. unfold free. case_decide; [done|]. by destruct (heap w !! p). Qed.

Lemma exec_live_attrs_count o w :
  live_attrs (post (exec o w))
  = (live_attrs w + attr_inits_ok (log (exec o w)))%nat.
Proof.
  destruct o as [pf fn|h]; simpl.
  - unfold mbind, M_bind. cbn zeta.
    destruct (out (_lfi_thread_create pf fn w)); cbn [post log];
      rewrite ?app_nil_r; apply create_live_attrs_count.
  - unfold _lfi_thread_destroy. rewrite free_live_attrs, free_log.
    rewrite attr_inits_ok_cons. unfold attr_inits_ok. simpl. lia.
Qed.

(** X8. Attribute objects leak one per successful [pthread_attr_init]:
    over every sequence of calls of the shim, the number of live attribute
    objects at the end is the number at the start plus the number of
    [pthread_attr_init] calls in the log that returned zero, and the log
    holds no [pthread_attr_destroy]. *)
Theorem run_leaks_one_attr_per_init os w :
  live_attrs (post (run os w))
  = (live_attrs w + attr_inits_ok (log (run os w)))%nat
  ∧ Forall (λ c, is_attr_destroy c = false) (log (run os w)).
Proof.
  split.
  - revert w. induction os as [|o os IH]; intros w; simpl.
    + unfold attr_inits_ok. simpl. lia.
    + unfold mbind, M_bind. cbn zeta.
      pose proof (exec_live_attrs_count o w) as Ho.
      destruct (out (exec o w)); cbn [post log].
      * rewrite IH, Ho, attr_inits_ok_app. lia.
      * done.
  - eapply Forall_impl; [apply run_log_shim|]. apply shim_call_not_attr_destroy.
Qed.

(** One create/destroy round trip on the successful path, as the first
    two steps of a host run. *)
Lemma run_round_trip_step pf fn os w :
  success_path pf →
  heap w !! malloc_ret pf = None →
  let w2 := {| heap := heap w; live_attrs := S (live_attrs w);
               threads := threads w ++ [spawned pf fn] |} in
  out (run (Create pf fn :: Destroy (malloc_ret pf) :: os) w) = out (run os w2)
  ∧ post (run (Create pf fn :: Destroy (malloc_ret pf) :: os) w) = post (run os w2).
Proof.
  intros Hok Hfresh. cbn zeta.
  pose proof (create_success_valid_handle pf fn w Hok) as Hv.
  cbn [run exec]. unfold mbind, M_bind, mret, M_ret. cbn zeta.
  rewrite (create_success pf fn w Hok) in Hv |- *. cbn [out post log] in Hv |- *.
  rewrite (destroy_valid _ _ Hv). cbn [out post log heap set_heap live_attrs threads].
  rewrite delete_insert_eq, (delete_id _ _ Hfresh).
  unfold spawned. by destruct (out (run os _)).
Qed.

(** X9. Any number of create/destroy round trips on the successful path
    leave the heap as it was, however often the allocator reuses an
    address: the run does not fault and the heap at the end is the heap at
    the start.  What accumulates is one started thread per round trip, in
    order, each bound to the entry function, and one live attribute object
    per round trip. *)
Theorem round_trips_restore_heap fn pfs w :
  Forall (λ pf, success_path pf ∧ heap w !! malloc_ret pf = None) pfs →
  let r := run (round_trips fn pfs) w in
  out r = Val tt
  ∧ heap (post r) = heap w
  ∧ threads (post r) = threads w ++ map (λ pf, spawned pf fn) pfs
  ∧ live_attrs (post r) = (live_attrs w + length pfs)%nat.
Proof.
  cbn zeta. revert w. induction pfs as [|pf pfs IH]; intros w Hall.
  - simpl. rewrite app_nil_r. split_and!; [done | done | done | lia].
  - apply Forall_cons in Hall as [[Hok Hfresh] Hall].
    destruct (run_round_trip_step pf fn (round_trips fn pfs) w Hok Hfresh)
      as [Hout Hpost].
    cbn [round_trips]. rewrite Hout, Hpost.
    destruct (IH {| heap := heap w; live_attrs := S (live_attrs w);
                    threads := threads w ++ [spawned pf fn] |} Hall)
      as (Ho & Hh & Ht & Hl).
    cbn [heap threads live_attrs] in Hh, Ht, Hl.
    split_and!; [done | done | | ].
    + rewrite Ht. cbn [map]. by rewrite <- app_assoc.
    + rewrite Hl. cbn [length]. lia.
Qed.

Lemma round_trips_restore_heap_witness :
  Forall (λ pf, success_path pf ∧ heap w_empty !! malloc_ret pf = None)
    [pf_ok; pf_ok; pf_ok]
  ∧ heap (post (run (round_trips fn_entry [pf_ok; pf_ok; pf_ok]) w_empty))
    = heap w_empty
  ∧ length (threads (post (run (round_trips fn_entry [pf_ok; pf_ok; pf_ok]) w_empty)))
    = 3%nat.
Proof.
  assert (Hok : success_path pf_ok) by (repeat split; simpl; unfold NULL; lia).
  assert (Hall : Forall (λ pf, success_path pf ∧ heap w_empty !! malloc_ret pf = None)
                   [pf_ok; pf_ok; pf_ok]).
  { assert (Hone : success_path pf_ok ∧ heap w_empty !! malloc_ret pf_ok = None)
      by (split; [exact Hok | reflexivity]).
    repeat (apply Forall_cons_2; [exact Hone|]). apply Forall_nil_2. }
  pose proof (round_trips_restore_heap fn_entry [pf_ok; pf_ok; pf_ok] w_empty Hall)
    as (_ & Hh & Ht & _).
  split_and!; [exact Hall | exact Hh |].
  rewrite Ht. reflexivity.
Defined.

(** X10. A handle returned although the thread never started is still a
    handle: when the allocation and the attribute setup succeed but
    [pthread_create] returns nonzero, destroying the returned pointer does
    not fault and gives the block back, so the heap and the started threads
    are what they were before the create.  The attribute object stays
    live. *)
Theorem create_refused_then_destroy pf fn w :
  malloc_ret pf ≠ NULL →
  heap w !! malloc_ret pf = None →
  attr_setup_ok pf →
  pthread_create_ret pf ≠ 0 →
  let r := (h ← _lfi_thread_create pf fn; _lfi_thread_destroy h) w in
  out r = Val tt
  ∧ heap (post r) = heap w
  ∧ threads (post r) = threads w
  ∧ live_attrs (post r) = S (live_attrs w).
Proof.
  intros Hm Hfresh Hok Hc. cbn zeta. unfold mbind, M_bind. cbn zeta.
  rewrite (create_reaches_spawn pf fn w Hok). cbn zeta.
  erewrite (spawn_refused pf fn _ _ Hc).
  2:{ simpl. by apply after_malloc_lookup. }
  cbn [out post log did].
  match goal with
  | |- context [_lfi_thread_destroy ?h ?w1] =>
      assert (Hv : valid_handle w1 h)
  end.
  { split; [done|]. cbn [heap set_heap]. rewrite lookup_insert_eq. by eexists. }
  rewrite (destroy_valid _ _ Hv). cbn [out post log].
  split_and!; [done | | simpl; apply after_malloc_threads | done].
  simpl. unfold after_malloc, malloc. case_decide; [done|]. simpl.
  rewrite !delete_insert_eq. by apply delete_id.
Qed.

Lemma create_refused_then_destroy_witness :
  malloc_ret pf_eagain ≠ NULL
  ∧ heap w_empty !! malloc_ret pf_eagain = None
  ∧ attr_setup_ok pf_eagain
  ∧ pthread_create_ret pf_eagain ≠ 0
  ∧ heap (post ((h ← _lfi_thread_create pf_eagain fn_entry; _lfi_thread_destroy h)
                  w_empty))
    = heap w_empty.
Proof.
  assert (Hm : malloc_ret pf_eagain ≠ NULL) by (simpl; unfold NULL; lia).
  assert (Hfresh : heap w_empty !! malloc_ret pf_eagain = None) by reflexivity.
  assert (Hok : attr_setup_ok pf_eagain) by (split; reflexivity).
  assert (Hc : pthread_create_ret pf_eagain ≠ 0) by (simpl; lia).
  split_and!; [exact Hm | exact Hfresh | exact Hok | exact Hc |].
  exact (proj1 (proj2
           (create_refused_then_destroy pf_eagain fn_entry w_empty Hm Hfresh Hok Hc))).
Defined.

Lemma destroy_null_eq w :
  _lfi_thread_destroy NULL w = {| out := Val tt; post := w; log := [Free NULL] |}.
Proof. reflexivity. Qed.

(** X11. The block leaked by a failed attribute setup cannot be given
    back through the interface: the create returns NULL, so the destroy
    that follows is [free(NULL)], which releases nothing; the heap stays as
    the allocation left it, the allocated block still live. *)
Theorem create_failed_then_destroy_keeps_leak pf fn w :
  attr_setup_fails pf →
  let r := (h ← _lfi_thread_create pf fn; _lfi_thread_destroy h) w in
  out r = Val tt
  ∧ filter (λ c, is_free c = true) (log r) = [Free NULL]
  ∧ heap (post r) = heap (after_malloc pf w)
  ∧ (malloc_ret pf ≠ NULL →
     heap (post r) !! malloc_ret pf
     = Some {| blk_size := sizeof_pthread_t pf; blk_tid := None |}).
Proof.
  intros Hf. cbn zeta. unfold mbind, M_bind. cbn zeta.
  assert (Hleak : malloc_ret pf ≠ NULL →
            heap (after_malloc pf w) !! malloc_ret pf
            = Some {| blk_size := sizeof_pthread_t pf; blk_tid := None |})
    by apply after_malloc_lookup.
  destruct (create_cases pf fn w) as [[_ ->]|[(_ & _ & ->)|[[Hi Hs] _]]].
  - cbn [out post log]. by rewrite destroy_null_eq.
  - cbn [out post log]. by rewrite destroy_null_eq.
  - by destruct Hf.
Qed.

Lemma create_failed_then_destroy_keeps_leak_witness :
  attr_setup_fails pf_einval
  ∧ heap (post ((h ← _lfi_thread_create pf_einval fn_entry; _lfi_thread_destroy h)
                  w_empty)) !! 4096
    = Some {| blk_size := 8; blk_tid := None |}.
Proof.
  assert (Hf : attr_setup_fails pf_einval) by (right; simpl; lia).
  assert (Hm : malloc_ret pf_einval ≠ NULL) by (simpl; unfold NULL; lia).
  split; [exact Hf|].
  exact (proj2 (proj2 (proj2
           (create_failed_then_destroy_keeps_leak pf_einval fn_entry w_empty Hf))) Hm).
Defined.

Lemma exec_create_failed pf fn w :
  attr_setup_fails pf →
  out (exec (Create pf fn) w) = Val tt
  ∧ heap (post (exec (Create pf fn) w)) = heap (after_malloc pf w)
  ∧ threads (post (exec (Create pf fn) w)) = threads w.
Proof.
  intros Hf. cbn [exec]. unfold mbind, M_bind, mret, M_ret. cbn zeta.
  destruct (create_cases pf fn w) as [[_ ->]|[(_ & _ & ->)|[[Hi Hs] _]]].
  - cbn [out post]. by rewrite after_malloc_threads.
  - cbn [out post]. simpl. by rewrite after_malloc_threads.
  - by destruct Hf.
Qed.

Lemma after_malloc_dom pf w :
  malloc_ret pf ≠ NULL →
  dom (heap (after_malloc pf w)) = {[malloc_ret pf]} ∪ dom (heap w).
Proof.
  intros Hm. unfold after_malloc, malloc. case_decide; [done|].
  simpl. apply dom_insert_L.
Qed.

Lemma run_cons_val o os w :
  out (exec o w) = Val tt →
  out (run (o :: os) w) = out (run os (post (exec o w)))
  ∧ post (run (o :: os) w) = post (run os (post (exec o w))).
Proof.
  intros Ho. cbn [run]. unfold mbind, M_bind. cbn zeta. by rewrite Ho.
Qed.

Lemma failed_creates_dom fn pfs : ∀ w,
  Forall (λ pf, attr_setup_fails pf ∧ malloc_ret pf ≠ NULL) pfs →
  out (run (creates fn pfs) w) = Val tt
  ∧ threads (post (run (creates fn pfs) w)) = threads w
  ∧ dom (heap (post (run (creates fn pfs) w)))
    = list_to_set (malloc_ret <$> pfs) ∪ dom (heap w).
Proof.
  induction pfs as [|pf pfs IH]; intros w Hall.
  - cbn [creates map run fmap list_fmap]. split_and!; [done | done |].
    cbn [mret M_ret post list_to_set foldr]. by rewrite (left_id_L ∅ (∪)).
  - apply Forall_cons in Hall as [[Hf Hm] Hall].
    destruct (exec_create_failed pf fn w Hf) as (Ho & Hh & Ht).
    unfold creates. cbn [map]. fold (creates fn pfs).
    destruct (run_cons_val (Create pf fn) (creates fn pfs) w Ho) as [-> ->].
    destruct (IH (post (exec (Create pf fn) w)) Hall) as (Ho' & Ht' & Hd').
    split_and!; [done | by rewrite Ht', Ht |].
    rewrite Hd', Hh, (after_malloc_dom pf w Hm). rewrite fmap_cons, list_to_set_cons.
    rewrite (assoc_L (∪)). f_equal. apply (comm_L (∪)).
Qed.

(** X12. The leak of the attribute-failure path adds up: a host whose
    creates all fail at attribute setup gets NULL every time and starts no
    thread, while every block the allocator handed out is still live at the
    end; with distinct new blocks the heap has grown by one block per
    call. *)
Theorem failed_creates_accumulate_blocks fn pfs w :
  Forall (λ pf, attr_setup_fails pf ∧ malloc_ret pf ≠ NULL) pfs →
  let r := run (creates fn pfs) w in
  out r = Val tt
  ∧ threads (post r) = threads w
  ∧ dom (heap (post r)) = list_to_set (malloc_ret <$> pfs) ∪ dom (heap w)
  ∧ (NoDup (malloc_ret <$> pfs) →
     Forall (λ pf, heap w !! malloc_ret pf = None) pfs →
     size (heap (post r)) = (size (heap w) + length pfs)%nat).
Proof.
  intros Hall. cbn zeta.
  destruct (failed_creates_dom fn pfs w Hall) as (Ho & Ht & Hd).
  split_and!; [done | done | done |].
  intros Hnd Hfresh.
  rewrite <- !size_dom, Hd.
  rewrite size_union.
  - rewrite size_list_to_set by done. rewrite length_fmap. lia.
  - intros a Ha Hin. apply elem_of_list_to_set, list_elem_of_fmap in Ha
      as (pf & -> & Hpf).
    rewrite Forall_forall in Hfresh. specialize (Hfresh pf Hpf).
    apply elem_of_dom in Hin as [b Hb].
    pose proof (eq_trans (eq_sym Hb) Hfresh) as Hx. discriminate Hx.
Qed.

Lemma failed_creates_accumulate_blocks_witness :
  Forall (λ pf, attr_setup_fails pf ∧ malloc_ret pf ≠ NULL) [pf_einval; pf_einval_2]
  ∧ size (heap (post (run (creates fn_entry [pf_einval; pf_einval_2]) w_empty)))
    = 2%nat.
Proof.
  assert (H1 : attr_setup_fails pf_einval ∧ malloc_ret pf_einval ≠ NULL).
  { split; [right; simpl; lia | simpl; unfold NULL; lia]. }
  assert (H2 : attr_setup_fails pf_einval_2 ∧ malloc_ret pf_einval_2 ≠ NULL).
  { split; [right; simpl; lia | simpl; unfold NULL; lia]. }
  assert (Hall : Forall (λ pf, attr_setup_fails pf ∧ malloc_ret pf ≠ NULL)
                   [pf_einval; pf_einval_2]).
  { apply Forall_cons_2; [exact H1|]. apply Forall_cons_2; [exact H2|].
    apply Forall_nil_2. }
  assert (Hnd : NoDup (malloc_ret <$> [pf_einval; pf_einval_2])).
  { apply NoDup_cons_2; [|apply NoDup_singleton].
    intros Hin. apply list_elem_of_singleton in Hin. discriminate Hin. }
  assert (Hfresh : Forall (λ pf, heap w_empty !! malloc_ret pf = None)
                     [pf_einval; pf_einval_2]).
  { apply Forall_cons_2; [reflexivity|]. apply Forall_cons_2; [reflexivity|].
    apply Forall_nil_2. }
  split; [exact Hall|].
  exact (proj2 (proj2 (proj2
           (failed_creates_accumulate_blocks fn_entry [pf_einval; pf_einval_2]
              w_empty Hall))) Hnd Hfresh).
Defined.
